(** * image_to_rgb_array: RGB888 to RGB565 packing and C array output

    A shallow embedding of [image_to_rgb_array.py].  The script decodes an
    image with imageio, packs every pixel into a 5-6-5 number
    ([rgb_vec_to_num]), stores the numbers in a matrix
    ([load_image_as_rgb]) and prints the matrix as a C array
    ([write_to_carray]).

    Conventions of the embedding:
    - Python exceptions are the [Raise] results of an error monad;
    - the file system and the logging output are an explicit [world] that
      the effectful functions thread through;
    - a numpy integer scalar combined with a Python [int] is promoted to
      the platform integer, a signed 64-bit number: the wrap-around of the
      promoted operations is written out with [int64]. *)

From Stdlib Require Import ZArith Lia String Ascii DecimalString.
From Stdlib Require DecimalZ DecimalPos.
From stdpp Require Import base numbers list strings gmap.

Local Open Scope Z_scope.

(** ** Exceptions and results *)

Inductive exn : Type :=
  | IndexError
  | SystemExit (code : Z)
  | External (what : string).

Inductive result (A : Type) : Type :=
  | Ok (a : A)
  | Raise (e : exn).
Arguments Ok {A} a.
Arguments Raise {A} e.

Module Res.
Definition bind {A B : Type} (m : result A) (k : A → result B) : result B :=
  match m with
  | Ok a => k a
  | Raise e => Raise e
  end.
End Res.

#[global] Instance result_ret : MRet result := @Ok.
#[global] Instance result_bind : MBind result := λ A B k m, Res.bind m k.

(** ** Integers *)

(** Signed 64-bit wrap-around of the promoted numpy operations. *)
Definition int64 (x : Z) : Z := (x + 2 ^ 63) `mod` 2 ^ 64 - 2 ^ 63.

Definition shl64 (x n : Z) : Z := int64 (x ≪ n).
Definition add64 (x y : Z) : Z := int64 (x + y).

(** The range of one channel of an 8-8-8 pixel. *)
Definition uint8 (x : Z) : Prop := 0 ≤ x ≤ 255.

#[global] Instance uint8_dec x : Decision (uint8 x).
Proof. unfold uint8. apply _. Defined.

(** ** rgb_vec_to_num *)

(** [vec[i]] on a one-dimensional array: out of range raises. *)
Definition getitem (vec : list Z) (i : nat) : result Z :=
  match vec !! i with
  | Some x => Ok x
  | None => Raise IndexError
  end.

Definition rgb_vec_to_num (vec : list Z) : result Z :=
  v0 ← getitem vec 0;
  let r := v0 ≫ 3 in
  v1 ← getitem vec 1;
  let g := v1 ≫ 2 in
  v2 ← getitem vec 2;
  let b := v2 ≫ 3 in
  let num := add64 (add64 (shl64 r 11) (shl64 g 5)) (shl64 b 0) in
  mret num.

(** The three fields of a 5-6-5 number, and the 8-bit channels rebuilt
    from them: each field is shifted back to the top of its byte. *)
Definition red5 (num : Z) : Z := Z.land (num ≫ 11) 31.
Definition green6 (num : Z) : Z := Z.land (num ≫ 5) 63.
Definition blue5 (num : Z) : Z := Z.land num 31.

Definition unpack565 (num : Z) : Z * Z * Z :=
  (red5 num ≪ 3, green6 num ≪ 2, blue5 num ≪ 3).

(** ** Strings *)

Local Open Scope string_scope.

Definition nl : string := String "010" "".
Definition tab : string := String "009" "".

(** [str(n)] of a Python integer: decimal digits, a minus sign when
    negative. *)
Definition str (n : Z) : string := NilZero.string_of_int (Z.to_int n).

(** [sep.join(l)]. *)
Fixpoint join (sep : string) (l : list string) : string :=
  match l with
  | [] => ""
  | [x] => x
  | x :: l' => x +:+ sep +:+ join sep l'
  end.

(** ** The world: files and the two output streams *)

Record world : Type := World {
  files : gmap string string;
  stderr : list string;
  stdout : list string
}.

Definition M (A : Type) : Type := world → result A * world.

Module Eff.
Definition ret {A : Type} (a : A) : M A := λ w, (Ok a, w).
Definition bind {A B : Type} (m : M A) (k : A → M B) : M B :=
  λ w, match m w with
       | (Ok a, w') => k a w'
       | (Raise e, w') => (Raise e, w')
       end.
Definition raise {A : Type} (e : exn) : M A := λ w, (Raise e, w).
Definition lift {A : Type} (r : result A) : M A := λ w, (r, w).
End Eff.

#[global] Instance M_ret : MRet M := @Eff.ret.
#[global] Instance M_bind : MBind M := λ A B k m, Eff.bind m k.

(** [logging.<level>(msg)] under the format ['%(levelname)s: %(message)s']
    that [main] configures. *)
Definition logging (level msg : string) : M unit :=
  λ w, (Ok (), World (files w) (stderr w ++ [level +:+ ": " +:+ msg]) (stdout w)).
Definition logging_info : string → M unit := logging "INFO".
Definition logging_error : string → M unit := logging "ERROR".

Definition print (text : string) : M unit :=
  λ w, (Ok (), World (files w) (stderr w) (stdout w ++ [text])).

(** A file opened for writing is named by its path. [f.write] appends to
    what the file holds, character for character (no translation of the
    newline, as on POSIX systems); [f.close] leaves the contents as they
    are. *)
Definition file_write (f : string) (s : string) : M unit :=
  λ w, (Ok (), World (alter (λ c, c +:+ s) f (files w)) (stderr w) (stdout w)).
Definition file_close (f : string) : M unit := mret ().

(** ** Arrays *)

(** The decoded image: a three-dimensional array, rows of pixels of
    channel values, with the first two entries of its shape. *)
Record ndarray : Type := Ndarray {
  shape0 : nat;
  shape1 : nat;
  rows : list (list (list Z))
}.

(** What numpy guarantees of such an array. *)
Definition ndarray_wf (im : ndarray) : Prop :=
  length (rows im) = shape0 im ∧
  Forall (λ im_row, length im_row = shape1 im) (rows im).

(** [np.zeros((h, w), dtype=int)]. *)
Definition zeros (h w : nat) : list (list Z) := replicate h (replicate w 0%Z).

(** [arr[i, j] = v]: numpy raises when an index is out of bounds. *)
Definition setitem2 (arr : list (list Z)) (i j : nat) (v : Z)
  : result (list (list Z)) :=
  match arr !! i with
  | Some row =>
      if decide (j < length row)%nat
      then Ok (<[i := <[j := v]> row]> arr)
      else Raise IndexError
  | None => Raise IndexError
  end.

(** A [for] loop whose body updates the loop state and may raise. *)
Fixpoint for_each {A S : Type} (xs : list A) (body : A → S → result S)
  (s : S) : result S :=
  match xs with
  | [] => Ok s
  | x :: xs' => s' ← body x s; for_each xs' body s'
  end.

(** ** The program *)

Record namespace : Type := Namespace {
  image_path : option string;
  file_path : option string;
  array_name : option string
}.

Definition header_line : string := "// Auto generated image header file" +:+ nl.

(** The pieces of text [write_to_carray] builds before it opens the file. *)
Definition var_start (array_name : string) : string :=
  "unsigned short int " +:+ array_name +:+ " [] = {" +:+ nl +:+ tab.
Definition var_end : string := "};" +:+ nl.
Definition separator : string := "," +:+ nl +:+ tab.

(** The two nested loops of [write_to_carray] that fill [var_values]. *)
Definition var_values (num_matrix : list (list Z)) : list string :=
  fold_left
    (λ var_values row,
       fold_left (λ var_values cell, (var_values ++ [str cell])%list)
         row var_values)
    num_matrix [].

Section Program.
(** The collaborators: the image decoder, which reads the file system,
    whether a path can be opened for writing, and the usage text of
    the argument parser. *)
Variable imread : gmap string string → string → result ndarray.
Variable writable : string → bool.
Variable help : string.

(** [open(path, "w")]: creates or truncates the file. *)
Definition open_w (path : string) : M string :=
  λ w, if writable path
       then (Ok path, World (<[path := ""]> (files w)) (stderr w) (stdout w))
       else (Raise (External "open"), w).

Definition write_to_carray (num_matrix : list (list Z))
  (array_name file_path : string) : M unit :=
  let var_start := var_start array_name in
  let var_end := var_end in
  let var_values := var_values num_matrix in
  f ← open_w file_path;
  file_write f header_line;;
  file_write f var_start;;
  file_write f (join separator var_values +:+ nl);;
  file_write f var_end;;
  file_close f.

Definition load_image_as_rgb (image_path : string) : M (list (list Z)) :=
  im ← (λ w, (imread (files w) image_path, w)) : M ndarray;
  let y_size := shape0 im in
  let x_size := shape1 im in
  logging_info ("Image has dimensions X:" +:+ str (Z.of_nat x_size)
                +:+ " Y:" +:+ str (Z.of_nat y_size));;
  let arr := zeros (shape0 im) (shape1 im) in
  Eff.lift (
    '(arr, _) ←
      for_each (rows im)
        (λ im_row '(arr, i),
           '(arr, _) ←
             for_each im_row
               (λ vec '(arr, j),
                  num ← rgb_vec_to_num vec;
                  arr ← setitem2 arr i j num;
                  mret (arr, S j))
               (arr, 0%nat);
           mret (arr, S i))
        (arr, 0%nat);
    mret arr).

Definition main (args : namespace) : M unit :=
  match array_name args, file_path args, image_path args with
  | Some array_name, Some file_path, Some image_path =>
      arr ← load_image_as_rgb image_path;
      write_to_carray arr array_name file_path;;
      logging_info ("Wrote " +:+ array_name +:+ " in " +:+ file_path
                    +:+ " from " +:+ image_path)
  | _, _, _ =>
      logging_error "Uh oh... here is some help:";;
      print help;;
      Eff.raise (SystemExit 1)
  end.
End Program.

(** ** The declaration as the specification words it

    These definitions follow the text of the specification, not the code;
    the theorems below compare them with what [write_to_carray] writes. *)

(** One line per entry, a tab first, a comma after every entry but the
    last. *)
Fixpoint entry_lines (vs : list string) : list string :=
  match vs with
  | [] => []
  | [v] => [tab +:+ v]
  | v :: vs' => (tab +:+ v +:+ ",") :: entry_lines vs'
  end.

Definition unlines (ls : list string) : string :=
  foldr (λ l text, l +:+ nl +:+ text) "" ls.

Definition declaration_text (name : string) (vs : list string) : string :=
  unlines ("// Auto generated image header file"
           :: ("unsigned short int " +:+ name +:+ " [] = {")
           :: (entry_lines vs ++ ["};"])%list).

(** Reading the entries back from the body of an initializer, the way a
    C compiler does: commas separate, tabs and newlines are skipped. *)
Definition is_blank (c : ascii) : bool :=
  bool_decide (c = "009"%char) || bool_decide (c = "010"%char).
Definition is_comma (c : ascii) : bool := bool_decide (c = ","%char).

Fixpoint entries_from (cur : string) (s : string) : list string :=
  match s with
  | "" => [cur]
  | String c s' =>
      if is_comma c then cur :: entries_from "" s'
      else if is_blank c then entries_from cur s'
      else entries_from (cur +:+ String c "") s'
  end.
Definition entries : string → list string := entries_from "".

Fixpoint count_commas (s : string) : nat :=
  match s with
  | "" => 0
  | String c s' => (if is_comma c then 1 else 0) + count_commas s'
  end.

(** The characters [str] can produce. *)
Definition is_numeric (c : ascii) : bool :=
  bool_decide (c = "-"%char) ||
  (Nat.leb 48 (nat_of_ascii c) && Nat.leb (nat_of_ascii c) 57).

Fixpoint all_chars (p : ascii → bool) (s : string) : bool :=
  match s with
  | "" => true
  | String c s' => p c && all_chars p s'
  end.

(** The packed number of a pixel the packer accepts. *)
Definition num_of (vec : list Z) : Z :=
  match rgb_vec_to_num vec with
  | Ok num => num
  | Raise _ => 0
  end.

(** A two-row, one-column image: a white pixel above a black one. *)
Definition white_over_black : ndarray :=
  Ndarray 2 1 [[[255; 255; 255]]; [[0; 0; 0]]]%Z.

(** Reading one entry as a decimal integer, the inverse of [str]. *)
Definition parse_int (s : string) : option Z :=
  option_map Z.of_int (NilZero.int_of_string s).

(** A channel of an image of up to 32 bits per channel. *)
Definition uint32 (x : Z) : Prop := (0 ≤ x < 2 ^ 32)%Z.

(** A 1x2 image of gray-with-alpha pixels, which have two channels. *)
Definition gray_alpha : ndarray :=
  Ndarray 1 2 [[[200; 255]; [17; 128]]]%Z.

(** A 1x2 image with an alpha channel, and the same image without. *)
Definition with_alpha : ndarray :=
  Ndarray 1 2 [[[10; 20; 30; 255]; [40; 50; 60; 0]]]%Z.
Definition without_alpha : ndarray :=
  Ndarray 1 2 [[[10; 20; 30]; [40; 50; 60]]]%Z.

(** * Properties of the packer *)

Local Open Scope Z_scope.

Lemma int64_small x : - 2 ^ 63 ≤ x < 2 ^ 63 → int64 x = x.
Proof.
  intros Hx. unfold int64. rewrite Z.mod_small; lia.
Qed.

(** A number below [2 ^ n] shares no bit with one shifted left by [n]. *)
Lemma land_shiftl_low hi lo n :
  0 ≤ n → 0 ≤ lo < 2 ^ n → Z.land (hi ≪ n) lo = 0.
Proof.
  intros Hn [Hlo Hlt]. apply Z.bits_inj'. intros i Hi.
  rewrite Z.land_spec, Z.bits_0.
  destruct (Z.lt_ge_cases i n) as [Hin | Hin].
  - rewrite Z.shiftl_spec_low by assumption. reflexivity.
  - apply andb_false_intro2.
    destruct (Z.eq_dec lo 0) as [-> | Hne]; [apply Z.bits_0 |].
    apply Z.bits_above_log2; [assumption |].
    apply Z.lt_le_trans with n; [| assumption].
    apply Z.log2_lt_pow2; lia.
Qed.

Lemma shiftr_uint8_3 x : uint8 x → 0 ≤ x ≫ 3 ≤ 31.
Proof.
  unfold uint8. intros Hx. rewrite Z.shiftr_div_pow2 by lia.
  change (2 ^ 3) with 8. Z.div_mod_to_equations. lia.
Qed.

Lemma shiftr_uint8_2 x : uint8 x → 0 ≤ x ≫ 2 ≤ 63.
Proof.
  unfold uint8. intros Hx. rewrite Z.shiftr_div_pow2 by lia.
  change (2 ^ 2) with 4. Z.div_mod_to_equations. lia.
Qed.

(** The code's sum of the three shifted fields, without the wrap-around:
    nothing overflows once the shifted channels fit their fields. *)
Lemma rgb_vec_to_num_fields r g b rest :
  0 ≤ r ≫ 3 ≤ 31 → 0 ≤ g ≫ 2 ≤ 63 → 0 ≤ b ≫ 3 ≤ 31 →
  rgb_vec_to_num (r :: g :: b :: rest)
  = Ok ((r ≫ 3) * 2048 + (g ≫ 2) * 32 + (b ≫ 3)).
Proof.
  intros Hr Hg Hb.
  cbn. unfold add64, shl64. f_equal.
  rewrite !Z.shiftl_mul_pow2 by lia.
  change (2 ^ 11) with 2048. change (2 ^ 5) with 32. change (2 ^ 0) with 1.
  rewrite !(int64_small (_ * _)) by lia.
  rewrite (int64_small ((r ≫ 3) * 2048 + (g ≫ 2) * 32)) by lia.
  rewrite int64_small by lia. lia.
Qed.

Lemma rgb_vec_to_num_sum r g b rest :
  uint8 r → uint8 g → uint8 b →
  rgb_vec_to_num (r :: g :: b :: rest)
  = Ok ((r ≫ 3) * 2048 + (g ≫ 2) * 32 + (b ≫ 3)).
Proof.
  intros Hr Hg Hb.
  apply rgb_vec_to_num_fields;
    auto using shiftr_uint8_3, shiftr_uint8_2.
Qed.

(** Masking off the bits the shift discards does not change the field. *)
Lemma shiftr_mask x n k mask :
  0 ≤ k → mask ≫ n = Z.ones k → 0 ≤ x ≫ n < 2 ^ k →
  Z.land x mask ≫ n = x ≫ n.
Proof.
  intros Hk Hmask Hx.
  rewrite Z.shiftr_land, Hmask, Z.land_ones by assumption.
  apply Z.mod_small. assumption.
Qed.

(** On disjoint fields the code's [+] is the specification's [|]. *)
Lemma fields_add_lor r5 g6 b5 :
  0 ≤ r5 → 0 ≤ g6 ≤ 63 → 0 ≤ b5 ≤ 31 →
  r5 * 2048 + g6 * 32 + b5 = Z.lor (Z.lor (r5 ≪ 11) (g6 ≪ 5)) (b5 ≪ 0).
Proof.
  intros Hr Hg Hb.
  assert (Hgl : 0 ≤ g6 ≪ 5 < 2 ^ 11).
  { rewrite Z.shiftl_mul_pow2 by lia. change (2 ^ 5) with 32.
    change (2 ^ 11) with 2048. lia. }
  rewrite (Z.shiftl_0_r b5).
  rewrite <- (Z.add_nocarry_lor (r5 ≪ 11) (g6 ≪ 5))
    by (apply land_shiftl_low; [lia | exact Hgl]).
  rewrite <- Z.add_nocarry_lor.
  - rewrite !Z.shiftl_mul_pow2 by lia. reflexivity.
  - rewrite (Z.add_nocarry_lor (r5 ≪ 11) (g6 ≪ 5))
      by (apply land_shiftl_low; [lia | exact Hgl]).
    rewrite Z.land_lor_distr_l.
    rewrite !land_shiftl_low; [reflexivity | lia | | lia |].
    + change (2 ^ 5) with 32. lia.
    + change (2 ^ 11) with 2048. lia.
Qed.


(** A number assembled from three fields gives each of them back from
    its bit range, and fits in 16 bits. *)
Lemma packed_fields r5 g6 b5 :
  0 ≤ r5 ≤ 31 → 0 ≤ g6 ≤ 63 → 0 ≤ b5 ≤ 31 →
  let num := r5 * 2048 + g6 * 32 + b5 in
  0 ≤ num ≤ 65535 ∧ red5 num = r5 ∧ green6 num = g6 ∧ blue5 num = b5.
Proof.
  intros Hr5 Hg6 Hb5 num. subst num.
  unfold red5, green6, blue5.
  change 31 with (Z.ones 5). change 63 with (Z.ones 6).
  rewrite !Z.land_ones, !Z.shiftr_div_pow2 by lia.
  change (2 ^ 11) with 2048. change (2 ^ 5) with 32. change (2 ^ 6) with 64.
  repeat split; try lia; Z.div_mod_to_equations; lia.
Qed.

(** C1: on 8-bit channels [rgb_vec_to_num] returns
    [((r >> 3) << 11) | ((g >> 2) << 5) | ((b >> 3) << 0)], a 16-bit number
    whose bits 15-11 hold the red field, bits 10-5 the green field and
    bits 4-0 the blue field. *)
Theorem rgb_vec_to_num_layout (r g b : Z) :
  uint8 r → uint8 g → uint8 b →
  ∃ num,
    rgb_vec_to_num [r; g; b] = Ok num
    ∧ num = Z.lor (Z.lor ((r ≫ 3) ≪ 11) ((g ≫ 2) ≪ 5)) ((b ≫ 3) ≪ 0)
    ∧ 0 ≤ num ≤ 65535
    ∧ red5 num = r ≫ 3 ∧ green6 num = g ≫ 2 ∧ blue5 num = b ≫ 3.
Proof.
  intros Hr Hg Hb.
  pose proof (shiftr_uint8_3 r Hr) as Hr5.
  pose proof (shiftr_uint8_2 g Hg) as Hg6.
  pose proof (shiftr_uint8_3 b Hb) as Hb5.
  eexists. split; [apply rgb_vec_to_num_sum; assumption |].
  split; [apply fields_add_lor; lia |].
  exact (packed_fields (r ≫ 3) (g ≫ 2) (b ≫ 3) Hr5 Hg6 Hb5).
Qed.

Lemma rgb_vec_to_num_layout_witness :
  uint8 200 ∧ uint8 100 ∧ uint8 50 ∧
  ∃ num,
    rgb_vec_to_num [200; 100; 50] = Ok num
    ∧ num = Z.lor (Z.lor ((200 ≫ 3) ≪ 11) ((100 ≫ 2) ≪ 5)) ((50 ≫ 3) ≪ 0)
    ∧ 0 ≤ num ≤ 65535
    ∧ red5 num = 200 ≫ 3 ∧ green6 num = 100 ≫ 2 ∧ blue5 num = 50 ≫ 3.
Proof.
  assert (H200 : uint8 200) by (unfold uint8; lia).
  assert (H100 : uint8 100) by (unfold uint8; lia).
  assert (H50 : uint8 50) by (unfold uint8; lia).
  exact (conj H200 (conj H100 (conj H50
           (rgb_vec_to_num_layout 200 100 50 H200 H100 H50)))).
Defined.

(** C3: white packs to 65535, black to 0, and (248,252,248) packs to the
    same number as white. *)
Theorem rgb_vec_to_num_examples :
  rgb_vec_to_num [255; 255; 255] = Ok 65535
  ∧ rgb_vec_to_num [0; 0; 0] = Ok 0
  ∧ rgb_vec_to_num [248; 252; 248] = rgb_vec_to_num [255; 255; 255].
Proof.
  repeat split; vm_compute; reflexivity.
Qed.

(** C5: packing is unchanged when each 8-bit channel is first truncated
    to the bits the packer keeps: [r & 0xF8], [g & 0xFC], [b & 0xF8]. *)
Theorem rgb_vec_to_num_truncated (r g b : Z) :
  uint8 r → uint8 g → uint8 b →
  ∃ num,
    rgb_vec_to_num [r; g; b] = Ok num
    ∧ rgb_vec_to_num [Z.land r 248; Z.land g 252; Z.land b 248] = Ok num.
Proof.
  intros Hr Hg Hb.
  pose proof (shiftr_uint8_3 r Hr) as Hr5.
  pose proof (shiftr_uint8_2 g Hg) as Hg6.
  pose proof (shiftr_uint8_3 b Hb) as Hb5.
  assert (Er : Z.land r 248 ≫ 3 = r ≫ 3)
    by (apply (shiftr_mask r 3 5); [lia | reflexivity | change (2 ^ 5) with 32; lia]).
  assert (Eg : Z.land g 252 ≫ 2 = g ≫ 2)
    by (apply (shiftr_mask g 2 6); [lia | reflexivity | change (2 ^ 6) with 64; lia]).
  assert (Eb : Z.land b 248 ≫ 3 = b ≫ 3)
    by (apply (shiftr_mask b 3 5); [lia | reflexivity | change (2 ^ 5) with 32; lia]).
  eexists. split; [apply rgb_vec_to_num_sum; assumption |].
  rewrite rgb_vec_to_num_fields by (rewrite ?Er, ?Eg, ?Eb; assumption).
  rewrite Er, Eg, Eb. reflexivity.
Qed.

Lemma rgb_vec_to_num_truncated_witness :
  uint8 255 ∧ uint8 7 ∧ uint8 129 ∧
  ∃ num,
    rgb_vec_to_num [255; 7; 129] = Ok num
    ∧ rgb_vec_to_num [Z.land 255 248; Z.land 7 252; Z.land 129 248] = Ok num.
Proof.
  assert (H255 : uint8 255) by (unfold uint8; lia).
  assert (H7 : uint8 7) by (unfold uint8; lia).
  assert (H129 : uint8 129) by (unfold uint8; lia).
  exact (conj H255 (conj H7 (conj H129
           (rgb_vec_to_num_truncated 255 7 129 H255 H7 H129)))).
Defined.

(** C6: rebuilding the 8-bit channels from the packed number (each field
    extracted and shifted back into place) is off by at most 7 for red
    and blue and by at most 3 for green. *)
Theorem unpack565_error (r g b : Z) :
  uint8 r → uint8 g → uint8 b →
  ∃ num r' g' b',
    rgb_vec_to_num [r; g; b] = Ok num
    ∧ unpack565 num = (r', g', b')
    ∧ Z.abs (r - r') ≤ 7 ∧ Z.abs (g - g') ≤ 3 ∧ Z.abs (b - b') ≤ 7.
Proof.
  intros Hr Hg Hb.
  destruct (packed_fields (r ≫ 3) (g ≫ 2) (b ≫ 3)) as (_ & Er & Eg & Eb);
    auto using shiftr_uint8_3, shiftr_uint8_2.
  eexists _, _, _, _.
  split; [apply rgb_vec_to_num_sum; assumption |]. split; [reflexivity |].
  rewrite Er, Eg, Eb. unfold uint8 in *.
  rewrite !Z.shiftl_mul_pow2, !Z.shiftr_div_pow2 by lia.
  change (2 ^ 3) with 8. change (2 ^ 2) with 4.
  repeat split; Z.div_mod_to_equations; lia.
Qed.

Lemma unpack565_error_witness :
  uint8 7 ∧ uint8 3 ∧ uint8 255 ∧
  ∃ num r' g' b',
    rgb_vec_to_num [7; 3; 255] = Ok num
    ∧ unpack565 num = (r', g', b')
    ∧ Z.abs (7 - r') ≤ 7 ∧ Z.abs (3 - g') ≤ 3 ∧ Z.abs (255 - b') ≤ 7.
Proof.
  assert (H7 : uint8 7) by (unfold uint8; lia).
  assert (H3 : uint8 3) by (unfold uint8; lia).
  assert (H255 : uint8 255) by (unfold uint8; lia).
  exact (conj H7 (conj H3 (conj H255
           (unpack565_error 7 3 255 H7 H3 H255)))).
Defined.

(** C10: [rgb_vec_to_num] reads elements 0, 1 and 2 only: two vectors
    that agree there give the same result, and a vector of three or more
    components (an RGBA pixel, say) is accepted whatever follows the
    third. *)
Theorem rgb_vec_to_num_first_three (vec1 vec2 : list Z) :
  (∀ i : nat, (i < 3)%nat → vec1 !! i = vec2 !! i) →
  rgb_vec_to_num vec1 = rgb_vec_to_num vec2
  ∧ ((3 ≤ length vec1)%nat →
     ∃ num, rgb_vec_to_num vec1 = Ok num ∧ rgb_vec_to_num vec2 = Ok num).
Proof.
  intros Hagree.
  assert (E : rgb_vec_to_num vec1 = rgb_vec_to_num vec2).
  { unfold rgb_vec_to_num, getitem.
    rewrite <- (Hagree 0%nat), <- (Hagree 1%nat), <- (Hagree 2%nat) by lia.
    reflexivity. }
  split; [exact E |].
  intros Hlen. rewrite <- E.
  destruct vec1 as [| r [| g [| b rest]]]; simpl in Hlen; try lia.
  eexists. split; reflexivity.
Qed.

Lemma rgb_vec_to_num_first_three_witness :
  (∀ i : nat, (i < 3)%nat → [10; 20; 30; 255] !! i = [10; 20; 30] !! i)
  ∧ rgb_vec_to_num [10; 20; 30; 255] = rgb_vec_to_num [10; 20; 30]
  ∧ ((3 ≤ length [10; 20; 30; 255])%nat →
     ∃ num, rgb_vec_to_num [10; 20; 30; 255] = Ok num
            ∧ rgb_vec_to_num [10; 20; 30] = Ok num).
Proof.
  assert (H : ∀ i : nat, (i < 3)%nat → [10; 20; 30; 255] !! i = [10; 20; 30] !! i).
  { intros [| [| [| i]]] Hi; try reflexivity. lia. }
  split; [exact H |].
  exact (rgb_vec_to_num_first_three [10; 20; 30; 255] [10; 20; 30] H).
Defined.

(** * Properties of the serializer *)

(** ** Strings *)

Lemma append_cons c (s t : string) : String c s +:+ t = String c (s +:+ t).
Proof. reflexivity. Qed.

Lemma append_nil_l (s : string) : "" +:+ s = s.
Proof. reflexivity. Qed.

Lemma append_nil_r (s : string) : s +:+ "" = s.
Proof. induction s as [| c s IH]; [reflexivity |]. rewrite append_cons, IH. reflexivity. Qed.

Lemma append_assoc (s t u : string) : (s +:+ t) +:+ u = s +:+ (t +:+ u).
Proof.
  induction s as [| c s IH]; [reflexivity |].
  rewrite !append_cons, IH. reflexivity.
Qed.

(** ** The decimal representation *)

Lemma string_of_uint_numeric (d : Decimal.uint) :
  all_chars is_numeric (NilEmpty.string_of_uint d) = true.
Proof. induction d; simpl; auto. Qed.

Lemma str_numeric (n : Z) : all_chars is_numeric (str n) = true.
Proof.
  unfold str. destruct (Z.to_int n) as [d | d]; simpl.
  - destruct d; try apply (string_of_uint_numeric (_ _)). reflexivity.
  - destruct d; try apply (string_of_uint_numeric (_ _)). reflexivity.
Qed.

Lemma is_numeric_not_comma c : is_numeric c = true → is_comma c = false.
Proof.
  unfold is_numeric, is_comma. intros H.
  apply bool_decide_eq_false. intros ->. discriminate H.
Qed.

Lemma is_numeric_not_blank c : is_numeric c = true → is_blank c = false.
Proof.
  unfold is_numeric, is_blank. intros H.
  apply orb_false_intro; apply bool_decide_eq_false; intros ->; discriminate H.
Qed.

(** ** The loops that collect the entries *)

Lemma var_values_row (row : list Z) (acc : list string) :
  fold_left (λ var_values cell, (var_values ++ [str cell])%list) row acc
  = (acc ++ map str row)%list.
Proof.
  revert acc. induction row as [| cell row IH]; intros acc; simpl.
  - rewrite app_nil_r. reflexivity.
  - rewrite IH, <- app_assoc. reflexivity.
Qed.

Lemma var_values_rows (num_matrix : list (list Z)) (acc : list string) :
  fold_left
    (λ var_values row,
       fold_left (λ var_values cell, (var_values ++ [str cell])%list)
         row var_values)
    num_matrix acc
  = (acc ++ map str (concat num_matrix))%list.
Proof.
  revert acc. induction num_matrix as [| row num_matrix IH]; intros acc; simpl.
  - rewrite app_nil_r. reflexivity.
  - rewrite IH, var_values_row, map_app, app_assoc. reflexivity.
Qed.

Lemma var_values_concat (num_matrix : list (list Z)) :
  var_values num_matrix = map str (concat num_matrix).
Proof. unfold var_values. rewrite var_values_rows. reflexivity. Qed.

(** Row-major addressing of a matrix whose rows all have width [w]. *)
Lemma concat_lookup_row_major {A : Type} (m : list (list A)) (w i j : nat) (row : list A) :
  Forall (λ r, length r = w) m →
  m !! i = Some row → (j < w)%nat →
  concat m !! (i * w + j)%nat = row !! j.
Proof.
  intros Hm. revert i. induction Hm as [| r m Hr Hm IH]; intros i Hi Hj.
  - discriminate Hi.
  - destruct i as [| i]; simpl in *.
    + injection Hi as ->. rewrite lookup_app_l by lia. reflexivity.
    + rewrite lookup_app_r by lia.
      replace (w + i * w + j - length r)%nat with (i * w + j)%nat by lia.
      apply IH; assumption.
Qed.

Lemma concat_length_rect {A : Type} (m : list (list A)) (w : nat) :
  Forall (λ r, length r = w) m → length (concat m) = (length m * w)%nat.
Proof.
  induction 1 as [| r m Hr Hm IH]; simpl; [reflexivity |].
  rewrite length_app, IH, Hr. reflexivity.
Qed.

(** ** The text that is written *)

Lemma join_cons2 sep (v v' : string) (vs : list string) :
  join sep (v :: v' :: vs) = v +:+ sep +:+ join sep (v' :: vs).
Proof. reflexivity. Qed.

(** The entry lines of the specification, spelt as the joined body the
    code writes after the tab that ends the opening line. *)
Lemma unlines_cons (l : string) (ls : list string) :
  unlines (l :: ls) = l +:+ nl +:+ unlines ls.
Proof. reflexivity. Qed.

Lemma unlines_entry_lines (v : string) (vs : list string) (rest : list string) :
  unlines (entry_lines (v :: vs) ++ rest)
  = tab +:+ join separator (v :: vs) +:+ nl +:+ unlines rest.
Proof.
  revert v. induction vs as [| v' vs IH]; intros v.
  - reflexivity.
  - change (entry_lines (v :: v' :: vs))
      with ((tab +:+ v +:+ ",") :: entry_lines (v' :: vs)).
    rewrite join_cons2, <- app_comm_cons, unlines_cons, IH.
    unfold separator. rewrite !append_assoc. reflexivity.
Qed.

Lemma entries_from_numeric (v cur rest : string) :
  all_chars is_numeric v = true →
  entries_from cur (v +:+ rest) = entries_from (cur +:+ v) rest.
Proof.
  revert cur. induction v as [| c v IH]; intros cur Hv.
  - rewrite append_nil_r. reflexivity.
  - simpl in Hv. apply andb_prop in Hv as [Hc Hv].
    rewrite append_cons. simpl.
    rewrite (is_numeric_not_comma c Hc), (is_numeric_not_blank c Hc).
    rewrite IH by assumption. rewrite append_assoc. reflexivity.
Qed.

(** Reading back the joined body returns the entries that were joined. *)
Lemma entries_join (v : string) (vs : list string) :
  Forall (λ v, all_chars is_numeric v = true) (v :: vs) →
  entries (join separator (v :: vs) +:+ nl) = v :: vs.
Proof.
  unfold entries. revert v. induction vs as [| v' vs IH]; intros v Hall.
  - apply Forall_cons in Hall as [Hv _]. simpl join.
    rewrite entries_from_numeric by assumption. reflexivity.
  - apply Forall_cons in Hall as [Hv Hall].
    rewrite join_cons2, !append_assoc.
    rewrite entries_from_numeric by assumption.
    unfold separator at 1. rewrite !append_assoc. simpl.
    f_equal. apply IH. assumption.
Qed.

Lemma count_commas_app (s t : string) :
  count_commas (s +:+ t) = (count_commas s + count_commas t)%nat.
Proof.
  induction s as [| c s IH]; [reflexivity |].
  rewrite append_cons. simpl. rewrite IH. lia.
Qed.

Lemma count_commas_numeric (v : string) :
  all_chars is_numeric v = true → count_commas v = 0%nat.
Proof.
  induction v as [| c v IH]; [reflexivity |]. simpl.
  intros [Hc Hv]%andb_prop.
  rewrite (is_numeric_not_comma c Hc), IH by assumption. reflexivity.
Qed.

(** ** Running [write_to_carray] *)

(** The four writes, in order, make the contents of the file. *)
Lemma write_to_carray_run writable num_matrix array_name file_path w :
  writable file_path = true →
  write_to_carray writable num_matrix array_name file_path w
  = (Ok (),
     World (<[file_path :=
                header_line +:+ var_start array_name
                +:+ (join separator (var_values num_matrix) +:+ nl)
                +:+ var_end]> (files w))
           (stderr w) (stdout w)).
Proof.
  intros Hw. unfold write_to_carray, open_w, mbind, M_bind, Eff.bind.
  rewrite Hw. unfold file_write, file_close, mret, M_ret, Eff.ret. simpl.
  rewrite !alter_insert_eq. rewrite !append_assoc. reflexivity.
Qed.

Lemma write_to_carray_unwritable writable num_matrix array_name file_path w :
  writable file_path = false →
  write_to_carray writable num_matrix array_name file_path w
  = (Raise (External "open"), w).
Proof.
  intros Hw. unfold write_to_carray, open_w, mbind, M_bind, Eff.bind.
  rewrite Hw. reflexivity.
Qed.

(** C4: for a matrix with at least one cell, the file holds exactly the
    comment line, the line that opens the declaration of [array_name],
    one line per entry (a tab, the decimal number, and a comma after every
    entry but the last), and the closing line. *)
Theorem write_to_carray_declaration writable (num_matrix : list (list Z))
  (array_name file_path : string) (w : world) :
  concat num_matrix ≠ [] →
  writable file_path = true →
  write_to_carray writable num_matrix array_name file_path w
  = (Ok (),
     World (<[file_path :=
                declaration_text array_name (map str (concat num_matrix))]>
              (files w))
           (stderr w) (stdout w)).
Proof.
  intros Hcells Hw.
  rewrite write_to_carray_run by assumption. do 3 f_equal.
  rewrite var_values_concat.
  destruct (concat num_matrix) as [| cell cells]; [congruence |].
  unfold declaration_text. rewrite !unlines_cons. simpl map.
  rewrite unlines_entry_lines, unlines_cons.
  unfold header_line, var_start, var_end, unlines. simpl foldr.
  rewrite !append_assoc, append_nil_r. reflexivity.
Qed.

Lemma write_to_carray_declaration_witness :
  concat [[65535]; [0]] ≠ []
  ∧ (λ _ : string, true) "example.h" = true
  ∧ write_to_carray (λ _, true) [[65535]; [0]] "img" "example.h" (World ∅ [] [])
    = (Ok (),
       World (<["example.h" :=
                  declaration_text "img" (map str (concat [[65535]; [0]]))]>
                (files (World ∅ [] [])))
             (stderr (World ∅ [] [])) (stdout (World ∅ [] []))).
Proof.
  assert (Hcells : concat [[65535]; [0]] ≠ []) by discriminate.
  split; [exact Hcells |]. split; [reflexivity |].
  exact (write_to_carray_declaration (λ _, true) [[65535]; [0]] "img"
           "example.h" (World ∅ [] []) Hcells eq_refl).
Defined.

(** C7: for a 1x1 matrix the file holds the opening text, the one entry,
    a newline and the closing line: reading the body back gives that one
    entry, and no comma stands between the entry and the closing brace. *)
Theorem write_to_carray_single writable (cell : Z)
  (array_name file_path : string) (w : world) :
  writable file_path = true →
  write_to_carray writable [[cell]] array_name file_path w
  = (Ok (),
     World (<[file_path :=
                header_line +:+ var_start array_name
                +:+ (str cell +:+ nl) +:+ var_end]> (files w))
           (stderr w) (stdout w))
  ∧ entries (str cell +:+ nl) = [str cell]
  ∧ count_commas ((str cell +:+ nl) +:+ var_end) = 0%nat.
Proof.
  intros Hw. split; [| split].
  - rewrite write_to_carray_run by assumption. reflexivity.
  - apply (entries_join (str cell) []).
    apply Forall_cons. split; [apply str_numeric | apply Forall_nil_2].
  - rewrite !count_commas_app, (count_commas_numeric (str cell))
      by apply str_numeric.
    reflexivity.
Qed.

Lemma write_to_carray_single_witness :
  (λ _ : string, true) "one.h" = true
  ∧ write_to_carray (λ _, true) [[2016]] "px" "one.h" (World ∅ [] [])
    = (Ok (),
       World (<["one.h" :=
                  header_line +:+ var_start "px"
                  +:+ (str 2016 +:+ nl) +:+ var_end]> (files (World ∅ [] [])))
             (stderr (World ∅ [] [])) (stdout (World ∅ [] [])))
  ∧ entries (str 2016 +:+ nl) = [str 2016]
  ∧ count_commas ((str 2016 +:+ nl) +:+ var_end) = 0%nat.
Proof.
  split; [reflexivity |].
  exact (write_to_carray_single (λ _, true) 2016 "px" "one.h"
           (World ∅ [] []) eq_refl).
Defined.

(** C9: a matrix without rows is not rejected: the file is written and
    holds the comment line, the opening line of the declaration, a line
    that is a single tab and holds no entry, and the closing line. *)
Theorem write_to_carray_no_rows writable (array_name file_path : string)
  (w : world) :
  writable file_path = true →
  write_to_carray writable [] array_name file_path w
  = (Ok (),
     World (<[file_path :=
                unlines ["// Auto generated image header file";
                         "unsigned short int " +:+ array_name +:+ " [] = {";
                         tab;
                         "};"]]> (files w))
           (stderr w) (stdout w))
  ∧ var_values [] = []
  ∧ all_chars (λ c, negb (is_numeric c)) (tab +:+ nl) = true.
Proof.
  intros Hw. split; [| split; reflexivity].
  rewrite write_to_carray_run by assumption. do 3 f_equal.
  unfold header_line, var_start, var_end, unlines. simpl.
  rewrite !append_assoc. reflexivity.
Qed.

Lemma write_to_carray_no_rows_witness :
  (λ _ : string, true) "empty.h" = true
  ∧ write_to_carray (λ _, true) [] "none" "empty.h" (World ∅ [] [])
    = (Ok (),
       World (<["empty.h" :=
                  unlines ["// Auto generated image header file";
                           "unsigned short int " +:+ "none" +:+ " [] = {";
                           tab;
                           "};"]]> (files (World ∅ [] [])))
             (stderr (World ∅ [] [])) (stdout (World ∅ [] [])))
  ∧ var_values [] = []
  ∧ all_chars (λ c, negb (is_numeric c)) (tab +:+ nl) = true.
Proof.
  split; [reflexivity |].
  exact (write_to_carray_no_rows (λ _, true) "none" "empty.h"
           (World ∅ [] []) eq_refl).
Defined.

(** * Properties of the matrix builder *)

Local Open Scope list_scope.

Lemma rgb_vec_to_num_num_of (vec : list Z) :
  (3 ≤ length vec)%nat → rgb_vec_to_num vec = Ok (num_of vec).
Proof.
  intros Hlen. destruct vec as [| r [| g [| b rest]]]; simpl in Hlen; try lia.
  reflexivity.
Qed.

(** Storing into the first cell not yet written of row [length pre]. *)
Lemma setitem2_next (pre post : list (list Z)) (done todo : list Z) (v0 v : Z) :
  setitem2 (pre ++ (done ++ v0 :: todo) :: post) (length pre) (length done) v
  = Ok (pre ++ ((done ++ [v]) ++ todo) :: post).
Proof.
  unfold setitem2.
  rewrite list_lookup_middle by reflexivity.
  rewrite decide_True by (rewrite length_app; simpl; lia).
  f_equal.
  rewrite insert_app_r_alt, Nat.sub_diag by lia. simpl. f_equal. f_equal.
  rewrite insert_app_r_alt, Nat.sub_diag by lia. simpl.
  rewrite <- app_assoc. reflexivity.
Qed.

(** The inner loop fills the rest of one row and leaves the others. *)
Lemma inner_loop (pre post : list (list Z)) (im_row : list (list Z)) :
  Forall (λ vec, (3 ≤ length vec)%nat) im_row →
  ∀ done : list Z,
  for_each im_row
    (λ vec '(arr, j),
       num ← rgb_vec_to_num vec;
       arr ← setitem2 arr (length pre) j num;
       mret (arr, S j))
    (pre ++ (done ++ replicate (length im_row) 0) :: post, length done)
  = Ok (pre ++ (done ++ map num_of im_row) :: post,
        (length done + length im_row)%nat).
Proof.
  induction 1 as [| vec im_row Hvec Hrow IH]; intros done.
  - simpl. rewrite Nat.add_0_r. reflexivity.
  - simpl for_each. simpl replicate.
    rewrite (rgb_vec_to_num_num_of vec Hvec).
    cbn [mbind result_bind Res.bind].
    rewrite setitem2_next. cbn [mbind result_bind Res.bind mret result_ret].
    specialize (IH (done ++ [num_of vec])%list).
    rewrite length_app in IH. simpl in IH.
    replace (S (length done)) with (length done + 1)%nat by lia.
    rewrite IH. rewrite <- app_assoc. simpl.
    do 2 f_equal. lia.
Qed.

(** The outer loop fills the rows from top to bottom. *)
Lemma outer_loop (w : nat) (im_rows : list (list (list Z))) :
  Forall (λ im_row, length im_row = w) im_rows →
  Forall (Forall (λ vec, (3 ≤ length vec)%nat)) im_rows →
  ∀ pre : list (list Z),
  for_each im_rows
    (λ im_row '(arr, i),
       '(arr, _) ←
         for_each im_row
           (λ vec '(arr, j),
              num ← rgb_vec_to_num vec;
              arr ← setitem2 arr i j num;
              mret (arr, S j))
           (arr, 0%nat);
       mret (arr, S i))
    (pre ++ replicate (length im_rows) (replicate w 0), length pre)
  = Ok (pre ++ map (map num_of) im_rows, (length pre + length im_rows)%nat).
Proof.
  induction 1 as [| im_row im_rows Hw Hrows IH]; intros Hvecs pre.
  - simpl. rewrite Nat.add_0_r. reflexivity.
  - apply Forall_cons in Hvecs as [Hvec Hvecs].
    simpl for_each. simpl replicate.
    pose proof (inner_loop pre (replicate (length im_rows) (replicate w 0))
                  im_row Hvec []) as Hinner.
    simpl in Hinner. rewrite Hw in Hinner. rewrite Hinner.
    cbn [mbind result_bind Res.bind mret result_ret].
    specialize (IH Hvecs (pre ++ [map num_of im_row])%list).
    rewrite length_app, <- app_assoc in IH. simpl in IH.
    replace (S (length pre)) with (length pre + 1)%nat by lia.
    rewrite IH. rewrite <- app_assoc. simpl. do 2 f_equal. lia.
Qed.

(** On a well-formed image whose pixels have three channels or more,
    [load_image_as_rgb] logs the dimensions and returns the matrix of the
    packed pixels, row by row. *)
Lemma load_image_as_rgb_run imread (image_path : string) (im : ndarray) (w : world) :
  imread (files w) image_path = Ok im →
  ndarray_wf im →
  Forall (Forall (λ vec, (3 ≤ length vec)%nat)) (rows im) →
  load_image_as_rgb imread image_path w
  = (Ok (map (map num_of) (rows im)),
     World (files w)
       (stderr w ++ ["INFO" +:+ ": " +:+
                     ("Image has dimensions X:" +:+ str (Z.of_nat (shape1 im))
                      +:+ " Y:" +:+ str (Z.of_nat (shape0 im)))])
       (stdout w)).
Proof.
  intros Him [Hh Hw] Hvecs.
  unfold load_image_as_rgb, mbind, M_bind, Eff.bind. rewrite Him.
  unfold logging_info, logging. cbn [files stderr stdout].
  unfold Eff.lift. f_equal.
  pose proof (outer_loop (shape1 im) (rows im) Hw Hvecs []) as Houter.
  rewrite Hh in Houter. simpl in Houter. unfold zeros.
  unfold mbind in Houter. rewrite Houter. reflexivity.
Qed.

(** * The whole run *)

(** C2: for an image of height [H >= 1] and width [W >= 1] the body
    written by [write_to_carray] reads back as exactly [H * W] entries, and
    the entry at index [i * W + j] is the decimal representation of the
    packed value of the pixel at row [i], column [j]. *)
Theorem main_entries_row_major imread writable help
  (ipath fpath name : string) (im : ndarray) (w : world) (H W : nat) :
  imread (files w) ipath = Ok im →
  ndarray_wf im →
  shape0 im = H → shape1 im = W → (1 ≤ H)%nat → (1 ≤ W)%nat →
  Forall (Forall (λ vec, (3 ≤ length vec)%nat)) (rows im) →
  writable fpath = true →
  ∃ w' body,
    main imread writable help
      (Namespace (Some ipath) (Some fpath) (Some name)) w = (Ok (), w')
    ∧ files w' !! fpath
      = Some (header_line +:+ var_start name +:+ body +:+ var_end)
    ∧ length (entries body) = (H * W)%nat
    ∧ ∀ (i j : nat) (im_row : list (list Z)) (vec : list Z),
        rows im !! i = Some im_row → im_row !! j = Some vec →
        ∃ num, rgb_vec_to_num vec = Ok num
               ∧ entries body !! (i * W + j)%nat = Some (str num).
Proof.
  intros Him Hwf HH HW H1 W1 Hvecs Hwr.
  pose proof Hwf as [Hlen Hwidth].
  set (arr := map (map num_of) (rows im)).
  assert (Hrect : Forall (λ r, length r = W) arr).
  { unfold arr. rewrite Forall_fmap. eapply Forall_impl; [exact Hwidth |].
    intros r Hr. simpl. rewrite length_map. congruence. }
  assert (Hsize : length (concat arr) = (H * W)%nat).
  { rewrite (concat_length_rect arr W Hrect). unfold arr.
    rewrite length_map. congruence. }
  assert (Hbody : entries (join separator (var_values arr) +:+ nl)
                  = map str (concat arr)).
  { rewrite var_values_concat.
    destruct (concat arr) as [| cell cells] eqn:Hcells.
    - simpl in Hsize. nia.
    - apply (entries_join (str cell) (map str cells)).
      rewrite <- fmap_cons. apply Forall_fmap.
      apply Forall_forall. intros n _. apply str_numeric. }
  eexists _, (join separator (var_values arr) +:+ nl).
  split; [| split; [| split]].
  - unfold main. cbn [array_name file_path image_path].
    unfold mbind at 1, M_bind, Eff.bind.
    rewrite (load_image_as_rgb_run imread ipath im w Him Hwf Hvecs).
    fold arr. unfold mbind at 1.
    rewrite write_to_carray_run by assumption.
    unfold logging_info, logging. reflexivity.
  - cbn [files]. apply lookup_insert_eq.
  - rewrite Hbody, length_map. exact Hsize.
  - intros i j im_row vec Hi Hj.
    exists (num_of vec). split.
    + apply rgb_vec_to_num_num_of.
      pose proof (Forall_lookup_1 _ _ _ _ Hvecs Hi) as Hrow.
      exact (Forall_lookup_1 _ _ _ _ Hrow Hj).
    + rewrite Hbody, list_lookup_fmap.
      assert (Hi' : arr !! i = Some (map num_of im_row)).
      { unfold arr. rewrite list_lookup_fmap, Hi. reflexivity. }
      assert (Hjw : (j < W)%nat).
      { pose proof (Forall_lookup_1 _ _ _ _ Hwidth Hi) as Hr. simpl in Hr.
        apply lookup_lt_Some in Hj. lia. }
      rewrite (concat_lookup_row_major arr W i j _ Hrect Hi' Hjw).
      rewrite list_lookup_fmap, Hj. reflexivity.
Qed.

Lemma main_entries_row_major_witness :
  (λ (_ : gmap string string) (_ : string), Ok white_over_black)
    (files (World ∅ [] [])) "in.png" = Ok white_over_black
  ∧ ndarray_wf white_over_black
  ∧ shape0 white_over_black = 2%nat ∧ shape1 white_over_black = 1%nat
  ∧ (1 ≤ 2)%nat ∧ (1 ≤ 1)%nat
  ∧ Forall (Forall (λ vec : list Z, (3 ≤ length vec)%nat)) (rows white_over_black)
  ∧ (λ _ : string, true) "out.h" = true
  ∧ ∃ w' body,
      main (λ _ _, Ok white_over_black) (λ _, true) "usage"
        (Namespace (Some "in.png") (Some "out.h") (Some "img"))
        (World ∅ [] []) = (Ok (), w')
      ∧ files w' !! "out.h"
        = Some (header_line +:+ var_start "img" +:+ body +:+ var_end)
      ∧ length (entries body) = (2 * 1)%nat
      ∧ ∀ (i j : nat) (im_row : list (list Z)) (vec : list Z),
          rows white_over_black !! i = Some im_row → im_row !! j = Some vec →
          ∃ num, rgb_vec_to_num vec = Ok num
                 ∧ entries body !! (i * 1 + j)%nat = Some (str num).
Proof.
  assert (Hwf : ndarray_wf white_over_black)
    by (split; [reflexivity | repeat constructor]).
  assert (Hvecs : Forall (Forall (λ vec : list Z, (3 ≤ length vec)%nat))
                    (rows white_over_black))
    by (repeat constructor).
  assert (H1 : (1 ≤ 2)%nat) by lia.
  assert (W1 : (1 ≤ 1)%nat) by lia.
  exact (conj eq_refl (conj Hwf (conj eq_refl (conj eq_refl (conj H1 (conj W1
          (conj Hvecs (conj eq_refl
            (main_entries_row_major (λ _ _, Ok white_over_black) (λ _, true)
               "usage" "in.png" "out.h" "img" white_over_black (World ∅ [] [])
               2 1 eq_refl Hwf eq_refl eq_refl H1 W1 Hvecs eq_refl))))))))).
Defined.

(** C8: when the decoder fails, the failure leaves [load_image_as_rgb]
    and [main] as it is, and the world is untouched: no file is written
    and nothing is logged. *)
Theorem decode_error_propagates imread writable help
  (ipath fpath name : string) (e : exn) (w : world) :
  imread (files w) ipath = Raise e →
  load_image_as_rgb imread ipath w = (Raise e, w)
  ∧ main imread writable help
      (Namespace (Some ipath) (Some fpath) (Some name)) w = (Raise e, w).
Proof.
  intros Him.
  assert (Hload : load_image_as_rgb imread ipath w = (Raise e, w)).
  { unfold load_image_as_rgb, mbind at 1, M_bind, Eff.bind.
    rewrite Him. reflexivity. }
  split; [exact Hload |].
  unfold main. cbn [array_name file_path image_path].
  unfold mbind at 1, M_bind, Eff.bind. rewrite Hload. reflexivity.
Qed.

Lemma decode_error_propagates_witness :
  (λ (_ : gmap string string) (_ : string), @Raise ndarray (External "decode"))
    (files (World ∅ [] [])) "missing.png" = Raise (External "decode")
  ∧ load_image_as_rgb (λ _ _, Raise (External "decode")) "missing.png"
      (World ∅ [] [])
    = (Raise (External "decode"), World ∅ [] [])
  ∧ main (λ _ _, Raise (External "decode")) (λ _, true) "usage"
      (Namespace (Some "missing.png") (Some "out.h") (Some "img"))
      (World ∅ [] [])
    = (Raise (External "decode"), World ∅ [] []).
Proof.
  split; [reflexivity |].
  exact (decode_error_propagates (λ _ _, Raise (External "decode"))
           (λ _, true) "usage" "missing.png" "out.h" "img"
           (External "decode") (World ∅ [] []) eq_refl).
Defined.

(** The run on the white-over-black image, evaluated: the entries are
    [65535] then [0], and both messages are logged. *)
Example main_white_over_black :
  main (λ _ _, Ok white_over_black) (λ _, true) "usage"
    (Namespace (Some "in.png") (Some "out.h") (Some "img")) (World ∅ [] [])
  = (Ok (),
     World {[ "out.h" :=
              unlines ["// Auto generated image header file";
                       "unsigned short int img [] = {";
                       tab +:+ "65535,";
                       tab +:+ "0";
                       "};"] ]}
       ["INFO: Image has dimensions X:1 Y:2";
        "INFO: Wrote img in out.h from in.png"]
       []).
Proof. vm_compute. reflexivity. Qed.

(** A missing argument ends the run with exit status 1 after the help
    text is printed; no file is touched. *)
Example main_usage_error imread writable help (fpath name : string) (w : world) :
  main imread writable help (Namespace None (Some fpath) (Some name)) w
  = (Raise (SystemExit 1),
     World (files w) (stderr w ++ ["ERROR: Uh oh... here is some help:"])
       (stdout w ++ [help])).
Proof. reflexivity. Qed.

(** * Further properties of the packer *)

Lemma getitem_lookup (vec : list Z) (i : nat) (x : Z) :
  vec !! i = Some x → getitem vec i = Ok x.
Proof. unfold getitem. intros ->. reflexivity. Qed.

(** The packer either accepts its vector or raises [IndexError]. *)
Lemma rgb_vec_to_num_cases (vec : list Z) :
  ((3 ≤ length vec)%nat ∧ rgb_vec_to_num vec = Ok (num_of vec))
  ∨ ((length vec < 3)%nat ∧ rgb_vec_to_num vec = Raise IndexError).
Proof.
  destruct vec as [| r [| g [| b rest]]]; simpl;
    (left; split; [lia | reflexivity]) || (right; split; [lia | reflexivity]).
Qed.


(** Without overflow of the promoted integer, the packer returns the sum
    of the three shifted channels. *)
Lemma rgb_vec_to_num_uint32 r g b rest :
  uint32 r → uint32 g → uint32 b →
  rgb_vec_to_num (r :: g :: b :: rest)
  = Ok ((r ≫ 3) * 2048 + (g ≫ 2) * 32 + (b ≫ 3)).
Proof.
  unfold uint32. change (2 ^ 32) with 4294967296. intros Hr Hg Hb.
  assert (Hr5 : 0 ≤ r ≫ 3 < 4294967296)
    by (rewrite Z.shiftr_div_pow2 by lia; change (2 ^ 3) with 8;
        Z.div_mod_to_equations; lia).
  assert (Hg6 : 0 ≤ g ≫ 2 < 4294967296)
    by (rewrite Z.shiftr_div_pow2 by lia; change (2 ^ 2) with 4;
        Z.div_mod_to_equations; lia).
  assert (Hb5 : 0 ≤ b ≫ 3 < 4294967296)
    by (rewrite Z.shiftr_div_pow2 by lia; change (2 ^ 3) with 8;
        Z.div_mod_to_equations; lia).
  cbn. unfold add64, shl64. f_equal.
  rewrite !Z.shiftl_mul_pow2 by lia.
  change (2 ^ 11) with 2048. change (2 ^ 5) with 32. change (2 ^ 0) with 1.
  rewrite !(int64_small (_ * _)) by lia.
  rewrite (int64_small ((r ≫ 3) * 2048 + (g ≫ 2) * 32)) by lia.
  rewrite int64_small by lia. lia.
Qed.

(** X2: two 8-bit pixels pack to the same number exactly when they agree on
    the bits the packer keeps: the top five of red and blue and the top six
    of green. *)
Theorem rgb_vec_to_num_collision (r g b r' g' b' : Z) :
  uint8 r → uint8 g → uint8 b → uint8 r' → uint8 g' → uint8 b' →
  rgb_vec_to_num [r; g; b] = rgb_vec_to_num [r'; g'; b']
  ↔ r ≫ 3 = r' ≫ 3 ∧ g ≫ 2 = g' ≫ 2 ∧ b ≫ 3 = b' ≫ 3.
Proof.
  intros Hr Hg Hb Hr' Hg' Hb'.
  rewrite !rgb_vec_to_num_sum by assumption.
  destruct (packed_fields (r ≫ 3) (g ≫ 2) (b ≫ 3)) as (_ & Er & Eg & Eb);
    auto using shiftr_uint8_3, shiftr_uint8_2.
  destruct (packed_fields (r' ≫ 3) (g' ≫ 2) (b' ≫ 3)) as (_ & Er' & Eg' & Eb');
    auto using shiftr_uint8_3, shiftr_uint8_2.
  split.
  - intros [= E]. rewrite E in Er, Eg, Eb.
    rewrite <- Er, <- Eg, <- Eb, Er', Eg', Eb'. auto.
  - intros (-> & -> & ->). reflexivity.
Qed.

Lemma rgb_vec_to_num_collision_witness :
  uint8 255 ∧ uint8 128 ∧ uint8 9 ∧ uint8 250 ∧ uint8 131 ∧ uint8 15
  ∧ (rgb_vec_to_num [255; 128; 9] = rgb_vec_to_num [250; 131; 15]
     ↔ 255 ≫ 3 = 250 ≫ 3 ∧ 128 ≫ 2 = 131 ≫ 2 ∧ 9 ≫ 3 = 15 ≫ 3).
Proof.
  assert (H1 : uint8 255) by (unfold uint8; lia).
  assert (H2 : uint8 128) by (unfold uint8; lia).
  assert (H3 : uint8 9) by (unfold uint8; lia).
  assert (H4 : uint8 250) by (unfold uint8; lia).
  assert (H5 : uint8 131) by (unfold uint8; lia).
  assert (H6 : uint8 15) by (unfold uint8; lia).
  exact (conj H1 (conj H2 (conj H3 (conj H4 (conj H5 (conj H6
          (rgb_vec_to_num_collision 255 128 9 250 131 15 H1 H2 H3 H4 H5 H6))))))).
Defined.

(** X3: the packer does not mask its input: a red channel wider than 8 bits,
    as a 16-bit image has, is accepted and gives a number that no longer
    fits the 16 bits of [unsigned short int]. *)
Theorem rgb_vec_to_num_wide_red (r g b : Z) :
  uint32 r → uint32 g → uint32 b → 256 ≤ r →
  ∃ num, rgb_vec_to_num [r; g; b] = Ok num ∧ 65535 < num.
Proof.
  intros Hr Hg Hb Hwide.
  eexists. split; [apply rgb_vec_to_num_uint32; assumption |].
  unfold uint32 in *. change (2 ^ 32) with 4294967296 in *.
  rewrite !Z.shiftr_div_pow2 by lia.
  change (2 ^ 3) with 8. change (2 ^ 2) with 4.
  Z.div_mod_to_equations. lia.
Qed.

Lemma rgb_vec_to_num_wide_red_witness :
  uint32 65535 ∧ uint32 0 ∧ uint32 0 ∧ 256 ≤ 65535
  ∧ ∃ num, rgb_vec_to_num [65535; 0; 0] = Ok num ∧ 65535 < num.
Proof.
  assert (H1 : uint32 65535) by (unfold uint32; lia).
  assert (H2 : uint32 0) by (unfold uint32; lia).
  assert (H3 : 256 ≤ 65535) by lia.
  exact (conj H1 (conj H2 (conj H2 (conj H3
          (rgb_vec_to_num_wide_red 65535 0 0 H1 H2 H2 H3))))).
Defined.

(** * Further properties of the matrix builder *)

Lemma setitem2_cases (arr : list (list Z)) (i j : nat) (v : Z) :
  (∃ arr', setitem2 arr i j v = Ok arr') ∨ setitem2 arr i j v = Raise IndexError.
Proof.
  unfold setitem2. destruct (arr !! i) as [row |]; [| right; reflexivity].
  destruct (decide (j < length row)%nat); [left; eexists | right]; reflexivity.
Qed.

(** The inner loop ends normally only if the packer accepted every pixel
    of the row; otherwise it raises [IndexError]. *)
Lemma inner_loop_cases (i : nat) (im_row : list (list Z)) :
  ∀ s : list (list Z) * nat,
  (∃ s', for_each im_row
           (λ vec '(arr, j),
              num ← rgb_vec_to_num vec;
              arr ← setitem2 arr i j num;
              mret (arr, S j)) s = Ok s'
         ∧ Forall (λ vec, (3 ≤ length vec)%nat) im_row)
  ∨ for_each im_row
      (λ vec '(arr, j),
         num ← rgb_vec_to_num vec;
         arr ← setitem2 arr i j num;
         mret (arr, S j)) s = Raise IndexError.
Proof.
  induction im_row as [| vec im_row IH]; intros [arr j].
  - left. eexists. split; [reflexivity | constructor].
  - simpl for_each.
    destruct (rgb_vec_to_num_cases vec) as [[Hlen E] | [Hlen E]]; rewrite E;
      cbn [mbind result_bind Res.bind]; [| right; reflexivity].
    destruct (setitem2_cases arr i j (num_of vec)) as [[arr' E'] | E'];
      rewrite E'; cbn [mbind result_bind Res.bind mret result_ret];
      [| right; reflexivity].
    destruct (IH (arr', S j)) as [(s' & Es & Hall) | Es].
    + left. exists s'. split; [exact Es | constructor; assumption].
    + right. exact Es.
Qed.

Lemma outer_loop_cases (im_rows : list (list (list Z))) :
  ∀ s : list (list Z) * nat,
  (∃ s', for_each im_rows
           (λ im_row '(arr, i),
              '(arr, _) ←
                for_each im_row
                  (λ vec '(arr, j),
                     num ← rgb_vec_to_num vec;
                     arr ← setitem2 arr i j num;
                     mret (arr, S j))
                  (arr, 0%nat);
              mret (arr, S i)) s = Ok s'
         ∧ Forall (Forall (λ vec, (3 ≤ length vec)%nat)) im_rows)
  ∨ for_each im_rows
      (λ im_row '(arr, i),
         '(arr, _) ←
           for_each im_row
             (λ vec '(arr, j),
                num ← rgb_vec_to_num vec;
                arr ← setitem2 arr i j num;
                mret (arr, S j))
             (arr, 0%nat);
         mret (arr, S i)) s = Raise IndexError.
Proof.
  induction im_rows as [| im_row im_rows IH]; intros [arr i].
  - left. eexists. split; [reflexivity | constructor].
  - simpl for_each.
    destruct (inner_loop_cases i im_row (arr, 0%nat)) as [([arr' j'] & E & Hrow) | E];
      rewrite E; cbn [mbind result_bind Res.bind mret result_ret];
      [| right; reflexivity].
    destruct (IH (arr', S i)) as [(s' & Es & Hall) | Es].
    + left. exists s'. split; [exact Es | constructor; assumption].
    + right. exact Es.
Qed.

(** The message [load_image_as_rgb] logs before it fills the matrix. *)
Lemma load_image_as_rgb_short imread (image_path : string) (im : ndarray)
  (w : world) (i j : nat) (im_row : list (list Z)) (vec : list Z) :
  imread (files w) image_path = Ok im →
  rows im !! i = Some im_row → im_row !! j = Some vec →
  (length vec < 3)%nat →
  load_image_as_rgb imread image_path w
  = (Raise IndexError,
     World (files w)
       (stderr w ++ ["INFO" +:+ ": " +:+
                     ("Image has dimensions X:" +:+ str (Z.of_nat (shape1 im))
                      +:+ " Y:" +:+ str (Z.of_nat (shape0 im)))])
       (stdout w)).
Proof.
  intros Him Hi Hj Hlen.
  unfold load_image_as_rgb, mbind at 1 2, M_bind, Eff.bind. rewrite Him.
  unfold logging_info, logging. cbn [files stderr stdout].
  unfold Eff.lift. f_equal.
  destruct (outer_loop_cases (rows im)
              (zeros (shape0 im) (shape1 im), 0%nat)) as [(s' & _ & Hall) | E].
  - pose proof (Forall_lookup_1 _ _ _ _ Hall Hi) as Hrow.
    pose proof (Forall_lookup_1 _ _ _ _ Hrow Hj) as Hvec. simpl in Hvec. lia.
  - rewrite E. reflexivity.
Qed.

(** X4: a pixel of fewer than three channels (a gray image with alpha, say)
    stops the run with [IndexError]: the dimensions have been logged, no
    file is written, and [main] passes the exception on. *)
Theorem main_short_pixel imread writable help (ipath fpath name : string)
  (im : ndarray) (w : world) (i j : nat) (im_row : list (list Z))
  (vec : list Z) :
  imread (files w) ipath = Ok im →
  rows im !! i = Some im_row → im_row !! j = Some vec →
  (length vec < 3)%nat →
  ∃ w',
    load_image_as_rgb imread ipath w = (Raise IndexError, w')
    ∧ main imread writable help
        (Namespace (Some ipath) (Some fpath) (Some name)) w
      = (Raise IndexError, w')
    ∧ files w' = files w
    ∧ stdout w' = stdout w
    ∧ stderr w'
      = stderr w ++ ["INFO: Image has dimensions X:"
                      +:+ str (Z.of_nat (shape1 im))
                      +:+ " Y:" +:+ str (Z.of_nat (shape0 im))].
Proof.
  intros Him Hi Hj Hlen.
  pose proof (load_image_as_rgb_short imread ipath im w i j im_row vec
                Him Hi Hj Hlen) as Hload.
  eexists. split; [exact Hload |].
  split; [| repeat split].
  unfold main. cbn [array_name file_path image_path].
  unfold mbind at 1, M_bind, Eff.bind. rewrite Hload. reflexivity.
Qed.

Lemma main_short_pixel_witness :
  (λ (_ : gmap string string) (_ : string), Ok gray_alpha)
    (files (World ∅ [] [])) "gray.png" = Ok gray_alpha
  ∧ rows gray_alpha !! 0%nat = Some [[200; 255]; [17; 128]]
  ∧ [[200; 255]; [17; 128]] !! 1%nat = Some [17; 128]
  ∧ (length [17; 128] < 3)%nat
  ∧ ∃ w',
      load_image_as_rgb (λ _ _, Ok gray_alpha) "gray.png" (World ∅ [] [])
      = (Raise IndexError, w')
      ∧ main (λ _ _, Ok gray_alpha) (λ _, true) "usage"
          (Namespace (Some "gray.png") (Some "out.h") (Some "img"))
          (World ∅ [] [])
        = (Raise IndexError, w')
      ∧ files w' = files (World ∅ [] [])
      ∧ stdout w' = stdout (World ∅ [] [])
      ∧ stderr w'
        = stderr (World ∅ [] [])
          ++ ["INFO: Image has dimensions X:"
              +:+ str (Z.of_nat (shape1 gray_alpha))
              +:+ " Y:" +:+ str (Z.of_nat (shape0 gray_alpha))].
Proof.
  assert (Hlen : (length [17; 128] < 3)%nat) by (simpl; lia).
  exact (conj eq_refl (conj eq_refl (conj eq_refl (conj Hlen
          (main_short_pixel (λ _ _, Ok gray_alpha) (λ _, true) "usage"
             "gray.png" "out.h" "img" gray_alpha (World ∅ [] []) 0 1
             [[200; 255]; [17; 128]] [17; 128]
             eq_refl eq_refl eq_refl Hlen))))).
Defined.

Lemma num_of_range (vec : list Z) :
  (3 ≤ length vec)%nat → Forall uint8 vec → 0 ≤ num_of vec ≤ 65535.
Proof.
  intros Hlen Hall.
  destruct vec as [| r [| g [| b rest]]]; simpl in Hlen; try lia.
  apply Forall_cons in Hall as [Hr Hall].
  apply Forall_cons in Hall as [Hg Hall].
  apply Forall_cons in Hall as [Hb _].
  unfold num_of. rewrite rgb_vec_to_num_sum by assumption.
  apply (packed_fields (r ≫ 3) (g ≫ 2) (b ≫ 3));
    auto using shiftr_uint8_3, shiftr_uint8_2.
Qed.

(** X5: for an 8-bit image whose pixels have three channels or more, the
    matrix that [load_image_as_rgb] returns has the shape of the image and
    every cell fits the 16 bits of [unsigned short int]. *)
Theorem load_image_as_rgb_matrix imread (image_path : string) (im : ndarray)
  (w : world) :
  imread (files w) image_path = Ok im →
  ndarray_wf im →
  Forall (Forall (λ vec, (3 ≤ length vec)%nat ∧ Forall uint8 vec)) (rows im) →
  ∃ arr,
    (load_image_as_rgb imread image_path w).1 = Ok arr
    ∧ length arr = shape0 im
    ∧ Forall (λ row, length row = shape1 im) arr
    ∧ Forall (Forall (λ cell, 0 ≤ cell ≤ 65535)) arr.
Proof.
  intros Him Hwf Hpix.
  assert (Hvecs : Forall (Forall (λ vec, (3 ≤ length vec)%nat)) (rows im)).
  { eapply Forall_impl; [exact Hpix |]. intros im_row Hrow.
    eapply Forall_impl; [exact Hrow |]. intros vec [Hlen _]. exact Hlen. }
  rewrite (load_image_as_rgb_run imread image_path im w Him Hwf Hvecs).
  destruct Hwf as [Hh Hw].
  eexists. split; [reflexivity |]. split; [| split].
  - rewrite length_map. exact Hh.
  - rewrite Forall_fmap. eapply Forall_impl; [exact Hw |].
    intros im_row Hrow. simpl. rewrite length_map. exact Hrow.
  - rewrite Forall_fmap. eapply Forall_impl; [exact Hpix |].
    intros im_row Hrow. simpl. rewrite Forall_fmap.
    eapply Forall_impl; [exact Hrow |].
    intros vec [Hlen H8]. simpl. apply num_of_range; assumption.
Qed.

Lemma load_image_as_rgb_matrix_witness :
  (λ (_ : gmap string string) (_ : string), Ok with_alpha)
    (files (World ∅ [] [])) "a.png" = Ok with_alpha
  ∧ ndarray_wf with_alpha
  ∧ Forall (Forall (λ vec, (3 ≤ length vec)%nat ∧ Forall uint8 vec))
      (rows with_alpha)
  ∧ ∃ arr,
      (load_image_as_rgb (λ _ _, Ok with_alpha) "a.png" (World ∅ [] [])).1
      = Ok arr
      ∧ length arr = shape0 with_alpha
      ∧ Forall (λ row, length row = shape1 with_alpha) arr
      ∧ Forall (Forall (λ cell, 0 ≤ cell ≤ 65535)) arr.
Proof.
  assert (Hwf : ndarray_wf with_alpha)
    by (split; [reflexivity | repeat constructor]).
  assert (Hpix : Forall (Forall (λ vec, (3 ≤ length vec)%nat ∧ Forall uint8 vec))
                   (rows with_alpha))
    by (repeat constructor; unfold uint8; simpl; lia).
  exact (conj eq_refl (conj Hwf (conj Hpix
          (load_image_as_rgb_matrix (λ _ _, Ok with_alpha) "a.png" with_alpha
             (World ∅ [] []) eq_refl Hwf Hpix)))).
Defined.

Lemma num_of_take (vec : list Z) : num_of (take 3 vec) = num_of vec.
Proof. destruct vec as [| r [| g [| b rest]]]; reflexivity. Qed.

Lemma packed_rows_take (im_rows : list (list (list Z))) :
  map (map num_of) (map (map (take 3)) im_rows) = map (map num_of) im_rows.
Proof.
  rewrite map_map. apply map_ext. intros im_row.
  rewrite map_map. apply map_ext. intros vec. apply num_of_take.
Qed.

(** X6: only the first three channels of each pixel reach the matrix: two
    images that differ in what follows them (an alpha channel, say) give
    the same matrix. *)
Theorem load_image_as_rgb_first_three imread (path1 path2 : string)
  (im1 im2 : ndarray) (w : world) :
  imread (files w) path1 = Ok im1 → imread (files w) path2 = Ok im2 →
  ndarray_wf im1 → ndarray_wf im2 →
  Forall (Forall (λ vec, (3 ≤ length vec)%nat)) (rows im1) →
  Forall (Forall (λ vec, (3 ≤ length vec)%nat)) (rows im2) →
  map (map (take 3)) (rows im1) = map (map (take 3)) (rows im2) →
  ∃ arr,
    (load_image_as_rgb imread path1 w).1 = Ok arr
    ∧ (load_image_as_rgb imread path2 w).1 = Ok arr.
Proof.
  intros Him1 Him2 Hwf1 Hwf2 Hvecs1 Hvecs2 Hrgb.
  rewrite (load_image_as_rgb_run imread path1 im1 w Him1 Hwf1 Hvecs1).
  rewrite (load_image_as_rgb_run imread path2 im2 w Him2 Hwf2 Hvecs2).
  eexists. split; [reflexivity |]. simpl. f_equal.
  rewrite <- (packed_rows_take (rows im1)), <- (packed_rows_take (rows im2)).
  rewrite Hrgb. reflexivity.
Qed.

Lemma load_image_as_rgb_first_three_witness :
  (λ (_ : gmap string string) (p : string),
     if String.eqb p "rgba.png" then Ok with_alpha else Ok without_alpha)
    (files (World ∅ [] [])) "rgba.png" = Ok with_alpha
  ∧ (λ (_ : gmap string string) (p : string),
       if String.eqb p "rgba.png" then Ok with_alpha else Ok without_alpha)
      (files (World ∅ [] [])) "rgb.png" = Ok without_alpha
  ∧ ndarray_wf with_alpha ∧ ndarray_wf without_alpha
  ∧ Forall (Forall (λ vec, (3 ≤ length vec)%nat)) (rows with_alpha)
  ∧ Forall (Forall (λ vec, (3 ≤ length vec)%nat)) (rows without_alpha)
  ∧ map (map (take 3)) (rows with_alpha)
    = map (map (take 3)) (rows without_alpha)
  ∧ ∃ arr,
      (load_image_as_rgb
         (λ _ p, if String.eqb p "rgba.png" then Ok with_alpha
                 else Ok without_alpha) "rgba.png" (World ∅ [] [])).1 = Ok arr
      ∧ (load_image_as_rgb
           (λ _ p, if String.eqb p "rgba.png" then Ok with_alpha
                   else Ok without_alpha) "rgb.png" (World ∅ [] [])).1 = Ok arr.
Proof.
  assert (Hwf1 : ndarray_wf with_alpha)
    by (split; [reflexivity | repeat constructor]).
  assert (Hwf2 : ndarray_wf without_alpha)
    by (split; [reflexivity | repeat constructor]).
  assert (Hv1 : Forall (Forall (λ vec, (3 ≤ length vec)%nat)) (rows with_alpha))
    by (repeat constructor).
  assert (Hv2 : Forall (Forall (λ vec, (3 ≤ length vec)%nat)) (rows without_alpha))
    by (repeat constructor).
  exact (conj eq_refl (conj eq_refl (conj Hwf1 (conj Hwf2 (conj Hv1 (conj Hv2
          (conj eq_refl
            (load_image_as_rgb_first_three
               (λ _ p, if String.eqb p "rgba.png" then Ok with_alpha
                       else Ok without_alpha)
               "rgba.png" "rgb.png" with_alpha without_alpha (World ∅ [] [])
               eq_refl eq_refl Hwf1 Hwf2 Hv1 Hv2 eq_refl)))))))).
Defined.

(** * Further properties of the serializer and of the run *)

Lemma parse_int_str (n : Z) : parse_int (str n) = Some n.
Proof.
  unfold parse_int, str. rewrite NilZero.isi.
  - simpl. f_equal. apply DecimalZ.of_to.
  - destruct n; simpl; intros [= H];
      exact (DecimalPos.Unsigned.to_uint_nonnil _ H).
  - destruct n; simpl; intros [= H];
      exact (DecimalPos.Unsigned.to_uint_nonnil _ H).
Qed.

(** X7: round trip: for a matrix with at least one cell, reading the entries
    of the written body back as decimal integers gives the cells of the
    matrix, row after row. *)
Theorem write_to_carray_round_trip writable (num_matrix : list (list Z))
  (array_name file_path : string) (w : world) :
  concat num_matrix ≠ [] →
  writable file_path = true →
  ∃ body,
    files (write_to_carray writable num_matrix array_name file_path w).2
      !! file_path
    = Some (header_line +:+ var_start array_name +:+ body +:+ var_end)
    ∧ map parse_int (entries body) = map Some (concat num_matrix).
Proof.
  intros Hcells Hw.
  rewrite write_to_carray_run by assumption.
  exists (join separator (var_values num_matrix) +:+ nl).
  split; [apply lookup_insert_eq |].
  rewrite var_values_concat.
  destruct (concat num_matrix) as [| cell cells]; [congruence |].
  change (map str (cell :: cells)) with (str cell :: map str cells).
  rewrite (entries_join (str cell) (map str cells)).
  - change (str cell :: map str cells) with (map str (cell :: cells)).
    rewrite map_map. apply map_ext. intros n. apply parse_int_str.
  - change (str cell :: map str cells) with (map str (cell :: cells)).
    apply Forall_fmap. apply Forall_forall. intros n _. apply str_numeric.
Qed.

Lemma write_to_carray_round_trip_witness :
  concat [[63488; 2016]; [31; 0]] ≠ []
  ∧ (λ _ : string, true) "rt.h" = true
  ∧ ∃ body,
      files (write_to_carray (λ _, true) [[63488; 2016]; [31; 0]] "px" "rt.h"
               (World ∅ [] [])).2 !! "rt.h"
      = Some (header_line +:+ var_start "px" +:+ body +:+ var_end)
      ∧ map parse_int (entries body)
        = map Some (concat [[63488; 2016]; [31; 0]]).
Proof.
  assert (Hcells : concat [[63488; 2016]; [31; 0]] ≠ []) by discriminate.
  exact (conj Hcells (conj eq_refl
          (write_to_carray_round_trip (λ _, true) [[63488; 2016]; [31; 0]]
             "px" "rt.h" (World ∅ [] []) Hcells eq_refl))).
Defined.

(** X8: the file records the cells in row-major order and nothing of the
    shape: two matrices with the same cells in that order are written as
    the same file. *)
Theorem write_to_carray_flat writable (m1 m2 : list (list Z))
  (array_name file_path : string) (w : world) :
  concat m1 = concat m2 →
  write_to_carray writable m1 array_name file_path w
  = write_to_carray writable m2 array_name file_path w.
Proof.
  intros Hflat. unfold write_to_carray.
  rewrite !var_values_concat, Hflat. reflexivity.
Qed.

Lemma write_to_carray_flat_witness :
  concat [[1; 2; 3]; [4; 5; 6]] = concat [[1; 2]; [3; 4]; [5; 6]]
  ∧ write_to_carray (λ _, true) [[1; 2; 3]; [4; 5; 6]] "m" "m.h" (World ∅ [] [])
    = write_to_carray (λ _, true) [[1; 2]; [3; 4]; [5; 6]] "m" "m.h"
        (World ∅ [] []).
Proof.
  exact (conj eq_refl
          (write_to_carray_flat (λ _, true) [[1; 2; 3]; [4; 5; 6]]
             [[1; 2]; [3; 4]; [5; 6]] "m" "m.h" (World ∅ [] []) eq_refl)).
Defined.

(** X9: [write_to_carray] replaces the file it is given and touches nothing
    else: every other file and both output streams are as before, and what
    the file held before has no influence on what it holds after. *)
Theorem write_to_carray_frame writable (num_matrix : list (list Z))
  (array_name file_path other : string) (w : world) :
  writable file_path = true →
  other ≠ file_path →
  let w' := (write_to_carray writable num_matrix array_name file_path w).2 in
  files w' !! other = files w !! other
  ∧ stderr w' = stderr w ∧ stdout w' = stdout w
  ∧ ∀ w2 : world,
      files (write_to_carray writable num_matrix array_name file_path w2).2
        !! file_path
      = files w' !! file_path.
Proof.
  intros Hw Hother w'. subst w'.
  rewrite write_to_carray_run by assumption. cbn [snd files stderr stdout].
  split; [apply lookup_insert_ne; congruence |].
  split; [reflexivity |]. split; [reflexivity |].
  intros w2. rewrite write_to_carray_run by assumption. cbn [snd files].
  rewrite !lookup_insert_eq. reflexivity.
Qed.

Lemma write_to_carray_frame_witness :
  (λ _ : string, true) "new.h" = true
  ∧ "keep.txt" ≠ "new.h"
  ∧ let w' := (write_to_carray (λ _, true) [[7]] "a" "new.h"
                 (World {["keep.txt" := "kept"; "new.h" := "old"]} [] [])).2 in
    files w' !! "keep.txt"
    = files (World {["keep.txt" := "kept"; "new.h" := "old"]} [] []) !! "keep.txt"
    ∧ stderr w' = stderr (World {["keep.txt" := "kept"; "new.h" := "old"]} [] [])
    ∧ stdout w' = stdout (World {["keep.txt" := "kept"; "new.h" := "old"]} [] [])
    ∧ ∀ w2 : world,
        files (write_to_carray (λ _, true) [[7]] "a" "new.h" w2).2 !! "new.h"
        = files w' !! "new.h".
Proof.
  assert (Hne : "keep.txt" ≠ "new.h") by discriminate.
  exact (conj eq_refl (conj Hne
          (write_to_carray_frame (λ _, true) [[7]] "a" "new.h" "keep.txt"
             (World {["keep.txt" := "kept"; "new.h" := "old"]} [] [])
             eq_refl Hne))).
Defined.

(** X10: when any of the three arguments is missing, [main] logs the error,
    prints the help text and exits with status 1: the decoder is not
    called and no file is touched. *)
Theorem main_missing_argument imread writable help (args : namespace)
  (w : world) :
  array_name args = None ∨ file_path args = None ∨ image_path args = None →
  main imread writable help args w
  = (Raise (SystemExit 1),
     World (files w) (stderr w ++ ["ERROR: Uh oh... here is some help:"])
       (stdout w ++ [help])).
Proof.
  intros Hmissing. unfold main.
  destruct (array_name args) as [name |], (file_path args) as [fpath |],
    (image_path args) as [ipath |]; try reflexivity.
  destruct Hmissing as [H | [H | H]]; discriminate H.
Qed.

Lemma main_missing_argument_witness :
  (array_name (Namespace (Some "in.png") None (Some "img")) = None
   ∨ file_path (Namespace (Some "in.png") None (Some "img")) = None
   ∨ image_path (Namespace (Some "in.png") None (Some "img")) = None)
  ∧ main (λ _ _, Ok white_over_black) (λ _, true) "usage"
      (Namespace (Some "in.png") None (Some "img")) (World ∅ [] [])
    = (Raise (SystemExit 1),
       World (files (World ∅ [] []))
         (stderr (World ∅ [] []) ++ ["ERROR: Uh oh... here is some help:"])
         (stdout (World ∅ [] []) ++ ["usage"])).
Proof.
  assert (Hmissing :
            array_name (Namespace (Some "in.png") None (Some "img")) = None
            ∨ file_path (Namespace (Some "in.png") None (Some "img")) = None
            ∨ image_path (Namespace (Some "in.png") None (Some "img")) = None)
    by (right; left; reflexivity).
  exact (conj Hmissing
          (main_missing_argument (λ _ _, Ok white_over_black) (λ _, true)
             "usage" (Namespace (Some "in.png") None (Some "img"))
             (World ∅ [] []) Hmissing)).
Defined.

(** The dimensions line that [load_image_as_rgb] logs. *)
Lemma dimensions_line (im : ndarray) :
  "INFO" +:+ ": " +:+
  ("Image has dimensions X:" +:+ str (Z.of_nat (shape1 im))
   +:+ " Y:" +:+ str (Z.of_nat (shape0 im)))
  = "INFO: Image has dimensions X:" +:+ str (Z.of_nat (shape1 im))
    +:+ " Y:" +:+ str (Z.of_nat (shape0 im)).
Proof. reflexivity. Qed.

(** X11: a complete run: the output file holds the declaration of the packed
    pixels in row-major order, the dimensions and the success message are
    logged in that order, and nothing is printed. *)
Theorem main_success imread writable help (ipath fpath name : string)
  (im : ndarray) (w : world) :
  imread (files w) ipath = Ok im →
  ndarray_wf im →
  Forall (Forall (λ vec, (3 ≤ length vec)%nat)) (rows im) →
  writable fpath = true →
  main imread writable help
    (Namespace (Some ipath) (Some fpath) (Some name)) w
  = (Ok (),
     World (<[fpath :=
                header_line +:+ var_start name
                +:+ (join separator (map str (concat (map (map num_of) (rows im))))
                     +:+ nl)
                +:+ var_end]> (files w))
       (stderr w
        ++ ["INFO: Image has dimensions X:" +:+ str (Z.of_nat (shape1 im))
            +:+ " Y:" +:+ str (Z.of_nat (shape0 im));
            "INFO: Wrote " +:+ name +:+ " in " +:+ fpath +:+ " from " +:+ ipath])
       (stdout w)).
Proof.
  intros Him Hwf Hvecs Hwr.
  unfold main. cbn [array_name file_path image_path].
  unfold mbind at 1, M_bind, Eff.bind.
  rewrite (load_image_as_rgb_run imread ipath im w Him Hwf Hvecs).
  unfold mbind at 1.
  rewrite write_to_carray_run by assumption.
  unfold logging_info, logging. cbn [files stderr stdout].
  rewrite var_values_concat, dimensions_line, <- app_assoc. reflexivity.
Qed.

Lemma main_success_witness :
  (λ (_ : gmap string string) (_ : string), Ok without_alpha)
    (files (World ∅ [] [])) "in.png" = Ok without_alpha
  ∧ ndarray_wf without_alpha
  ∧ Forall (Forall (λ vec, (3 ≤ length vec)%nat)) (rows without_alpha)
  ∧ (λ _ : string, true) "out.h" = true
  ∧ main (λ _ _, Ok without_alpha) (λ _, true) "usage"
      (Namespace (Some "in.png") (Some "out.h") (Some "img")) (World ∅ [] [])
    = (Ok (),
       World (<["out.h" :=
                  header_line +:+ var_start "img"
                  +:+ (join separator
                         (map str (concat (map (map num_of) (rows without_alpha))))
                       +:+ nl)
                  +:+ var_end]> (files (World ∅ [] [])))
         (stderr (World ∅ [] [])
          ++ ["INFO: Image has dimensions X:"
              +:+ str (Z.of_nat (shape1 without_alpha))
              +:+ " Y:" +:+ str (Z.of_nat (shape0 without_alpha));
              "INFO: Wrote " +:+ "img" +:+ " in " +:+ "out.h" +:+ " from "
              +:+ "in.png"])
         (stdout (World ∅ [] []))).
Proof.
  assert (Hwf : ndarray_wf without_alpha)
    by (split; [reflexivity | repeat constructor]).
  assert (Hvecs : Forall (Forall (λ vec, (3 ≤ length vec)%nat))
                    (rows without_alpha))
    by (repeat constructor).
  exact (conj eq_refl (conj Hwf (conj Hvecs (conj eq_refl
          (main_success (λ _ _, Ok without_alpha) (λ _, true) "usage"
             "in.png" "out.h" "img" without_alpha (World ∅ [] [])
             eq_refl Hwf Hvecs eq_refl))))).
Defined.

(** X12: when the output path cannot be opened, the run fails after the image
    was decoded and packed: the error of [open] leaves [main], the
    dimensions are the only message logged, and no file is changed. *)
Theorem main_unwritable imread writable help (ipath fpath name : string)
  (im : ndarray) (w : world) :
  imread (files w) ipath = Ok im →
  ndarray_wf im →
  Forall (Forall (λ vec, (3 ≤ length vec)%nat)) (rows im) →
  writable fpath = false →
  main imread writable help
    (Namespace (Some ipath) (Some fpath) (Some name)) w
  = (Raise (External "open"),
     World (files w)
       (stderr w
        ++ ["INFO: Image has dimensions X:" +:+ str (Z.of_nat (shape1 im))
            +:+ " Y:" +:+ str (Z.of_nat (shape0 im))])
       (stdout w)).
Proof.
  intros Him Hwf Hvecs Hwr.
  unfold main. cbn [array_name file_path image_path].
  unfold mbind at 1, M_bind, Eff.bind.
  rewrite (load_image_as_rgb_run imread ipath im w Him Hwf Hvecs).
  unfold mbind at 1.
  rewrite write_to_carray_unwritable by assumption.
  rewrite dimensions_line. reflexivity.
Qed.

Lemma main_unwritable_witness :
  (λ (_ : gmap string string) (_ : string), Ok without_alpha)
    (files (World ∅ [] [])) "in.png" = Ok without_alpha
  ∧ ndarray_wf without_alpha
  ∧ Forall (Forall (λ vec, (3 ≤ length vec)%nat)) (rows without_alpha)
  ∧ (λ _ : string, false) "/ro/out.h" = false
  ∧ main (λ _ _, Ok without_alpha) (λ _, false) "usage"
      (Namespace (Some "in.png") (Some "/ro/out.h") (Some "img"))
      (World ∅ [] [])
    = (Raise (External "open"),
       World (files (World ∅ [] []))
         (stderr (World ∅ [] [])
          ++ ["INFO: Image has dimensions X:"
              +:+ str (Z.of_nat (shape1 without_alpha))
              +:+ " Y:" +:+ str (Z.of_nat (shape0 without_alpha))])
         (stdout (World ∅ [] []))).
Proof.
  assert (Hwf : ndarray_wf without_alpha)
    by (split; [reflexivity | repeat constructor]).
  assert (Hvecs : Forall (Forall (λ vec, (3 ≤ length vec)%nat))
                    (rows without_alpha))
    by (repeat constructor).
  exact (conj eq_refl (conj Hwf (conj Hvecs (conj eq_refl
          (main_unwritable (λ _ _, Ok without_alpha) (λ _, false) "usage"
             "in.png" "/ro/out.h" "img" without_alpha (World ∅ [] [])
             eq_refl Hwf Hvecs eq_refl))))).
Defined.
